(** * ts-result: a shallow embedding of [src/index.ts] and its contract

    The library exports one data type, [Result<T, E> = Ok<T> | Err<E>], and
    thirteen functions over it.  Every function is a single expression or a
    two-statement body, so the embedding is one Rocq definition per exported
    function, in the order of the source file.

    What the host language contributes is modelled explicitly:
    - a function body either returns a value or throws ([Completion]);
    - [new Error(message)] builds an error object whose [name] is the
      built-in ["Error"] and whose [message] is the argument;
    - a caller-supplied [func] is an arbitrary computation: it may read and
      write the caller's own state ([Heap]) and it may throw;
    - each invocation of a caller-supplied function by the library is
      counted in the [calls] field of the [World], so that "func is never
      invoked" is a statement about the run and not about the text.

    Result objects have [readonly] fields and no function of the library
    writes to one, so they are modelled as values: object identity is not
    part of the model. *)

From Stdlib Require Import String.

Local Open Scope string_scope.

(* ===================================================================== *)
(** ** Host language *)
(* ===================================================================== *)

(** An error object, as far as the library and its tests look at it: the
    [name] every [Error] carries and the [message] given at construction. *)
Record JsError : Type := mkJsError { name : string; message : string }.

(** [new Error(message)] *)
Definition new_Error (msg : string) : JsError :=
  {| name := "Error"; message := msg |}.

(** How the evaluation of a function body ends. *)
Inductive Completion (X : Type) : Type :=
| Normal (x : X)
| Throw (e : JsError).
Arguments Normal {X} x.
Arguments Throw {X} e.

(** The part of the machine a run can change: the caller's state, and the
    number of times the library has invoked a caller-supplied function. *)
Record World (Heap : Type) : Type := mkWorld { calls : nat; heap : Heap }.
Arguments mkWorld {Heap} calls heap.
Arguments calls {Heap} w.
Arguments heap {Heap} w.

(** A computation of the host language. *)
Definition JS (Heap X : Type) : Type :=
  World Heap -> Completion X * World Heap.

(** A caller-supplied function [(a: A) => B]: it sees the caller's state
    only, never the instrumentation. *)
Definition Func (Heap A B : Type) : Type :=
  A -> Heap -> Completion B * Heap.

(** [T | undefined] and [T | null], in one type so that the two sentinels
    can be compared. *)
Inductive OrNullish (T : Type) : Type :=
| Value (x : T)
| undefined
| null.
Arguments Value {T} x.
Arguments undefined {T}.
Arguments null {T}.

Section Monad.
Context {Heap : Type}.

Definition ret {X} (x : X) : JS Heap X := fun w => (Normal x, w).

Definition throw {X} (e : JsError) : JS Heap X := fun w => (Throw e, w).

Definition bind {X Y} (c : JS Heap X) (k : X -> JS Heap Y) : JS Heap Y :=
  fun w =>
    match c w with
    | (Normal x, w') => k x w'
    | (Throw e, w') => (Throw e, w')
    end.

(** [func(a)] inside the library: one more invocation, then the caller's
    code runs on the caller's state. *)
Definition call {A B} (func : Func Heap A B) (a : A) : JS Heap B :=
  fun w =>
    match func a (heap w) with
    | (c, h) => (c, {| calls := S (calls w); heap := h |})
    end.
End Monad.

Declare Scope js_scope.
Delimit Scope js_scope with js.
Notation "x <- c ;; k" := (bind c (fun x => k))
  (at level 61, c at next level, right associativity) : js_scope.
Local Open Scope js_scope.

(* ===================================================================== *)
(** ** The data model (index.ts, lines 1-18) *)
(* ===================================================================== *)

(** [Ok<T> = { success: true; data: T }],
    [Err<E> = { success: false; error: E }],
    [Result<T, E> = Ok<T> | Err<E>]. *)
Inductive Result (T E : Type) : Type :=
| Ok (data : T)
| Err (error : E).
Arguments Ok {T E} data.
Arguments Err {T E} error.

(** The discriminant field. *)
Definition success {T E} (result : Result T E) : bool :=
  match result with
  | Ok _ => true
  | Err _ => false
  end.

(* ===================================================================== *)
(** ** The exported functions *)
(* ===================================================================== *)

Section Library.
Context {Heap : Type}.

(** [ok = (data) => ({ success: true, data })] *)
Definition ok {T E} (data : T) : JS Heap (Result T E) := ret (Ok data).

(** [err = (error) => ({ success: false, error })] *)
Definition err {T E} (error : E) : JS Heap (Result T E) := ret (Err error).

(** [isOk = (result) => result.success] *)
Definition isOk {T E} (result : Result T E) : JS Heap bool :=
  ret (success result).

(** [isErr = (result) => !result.success] *)
Definition isErr {T E} (result : Result T E) : JS Heap bool :=
  ret (negb (success result)).

(** [if (result.success) return result.data; throw new Error(message);] *)
Definition expect {T E} (result : Result T E) (msg : string) : JS Heap T :=
  match result with
  | Ok data => ret data
  | Err _ => throw (new_Error msg)
  end.

(** [if (result.success) return result.data;
     throw new Error('unsuccessful result');] *)
Definition unwrap {T E} (result : Result T E) : JS Heap T :=
  match result with
  | Ok data => ret data
  | Err _ => throw (new_Error "unsuccessful result")
  end.

(** [result.success ? result.data : defaultValue] *)
Definition unwrapOrDefault {T E} (result : Result T E) (defaultValue : T)
  : JS Heap T :=
  match result with
  | Ok data => ret data
  | Err _ => ret defaultValue
  end.

(** [result.success ? result.data : func(result.error)] *)
Definition unwrapOrElse {T E} (result : Result T E) (func : Func Heap E T)
  : JS Heap T :=
  match result with
  | Ok data => ret data
  | Err error => call func error
  end.

(** [result.success ? result.data : undefined] *)
Definition unwrapOrUndefined {T E} (result : Result T E)
  : JS Heap (OrNullish T) :=
  match result with
  | Ok data => ret (Value data)
  | Err _ => ret undefined
  end.

(** [result.success ? result.data : null] *)
Definition unwrapOrNull {T E} (result : Result T E) : JS Heap (OrNullish T) :=
  match result with
  | Ok data => ret (Value data)
  | Err _ => ret null
  end.

(** [result.success ? ok(func(result.data)) : result] *)
Definition mapResultData {T T2 E} (result : Result T E) (func : Func Heap T T2)
  : JS Heap (Result T2 E) :=
  match result with
  | Ok data => v <- call func data ;; ok v
  | Err error => ret (Err error)
  end.

(** [result.success ? ok(func(result.data)) : ok(defaultValue)]
    The declared return type is [Ok<T2>], which fits [Result<T2, E2>] for
    every [E2]. *)
Definition mapResultDataOrDefault {T T2 E E2} (result : Result T E)
    (func : Func Heap T T2) (defaultValue : T2) : JS Heap (Result T2 E2) :=
  match result with
  | Ok data => v <- call func data ;; ok v
  | Err _ => ok defaultValue
  end.

(** [result.success ? result : err(func(result.error))] *)
Definition mapResultError {T E E2} (result : Result T E) (func : Func Heap E E2)
  : JS Heap (Result T E2) :=
  match result with
  | Ok data => ret (Ok data)
  | Err error => v <- call func error ;; err v
  end.
End Library.

(* ===================================================================== *)
(** ** Vocabulary of the contract *)
(* ===================================================================== *)

(** The run of [c] from [w] is aborted by an error object of the given kind
    (its [name]) and description (its [message]), the world left as it
    was. *)
Definition raises {Heap X} (c : JS Heap X) (w : World Heap)
    (kind descr : string) : Prop :=
  exists x, c w = (Throw x, w) /\ name x = kind /\ message x = descr.

(** What a run threw, if it threw. *)
Definition thrown {Heap X} (c : JS Heap X) (w : World Heap)
  : option JsError :=
  match fst (c w) with
  | Normal _ => None
  | Throw x => Some x
  end.

(** [c] returns normally from every world, and changes nothing. *)
Definition never_raises {Heap X} (c : JS Heap X) : Prop :=
  forall w, exists v, c w = (Normal v, w).

(** An operation that takes a caller-supplied function fails only when
    that function, invoked by the operation on the caller's state, failed;
    and it fails with the very object the function threw, in the state the
    function left. *)
Definition raises_only_through {Heap A B X}
    (op : Func Heap A B -> JS Heap X) : Prop :=
  forall func w x w',
    op func w = (Throw x, w') ->
    exists a, func a (heap w) = (Throw x, heap w') /\
              calls w' = S (calls w).

(** On the variant that hands its payload [a] to the caller's function,
    the operation ends as that one invocation ends: if the function throws,
    the operation is aborted by the object it threw, nothing caught,
    wrapped or suppressed, and what the function did to the caller's state
    stays; if the function returns, so does the operation. *)
Definition propagates_unmodified {Heap A B X}
    (op : Func Heap A B -> JS Heap X) (a : A) : Prop :=
  forall func w c h',
    func a (heap w) = (c, h') ->
    match c with
    | Throw x =>
        op func w = (Throw x, {| calls := S (calls w); heap := h' |})
    | Normal _ =>
        exists v,
          op func w = (Normal v, {| calls := S (calls w); heap := h' |})
    end.

(** Two runs agree on what the caller can see: how they ended, with what
    value or error, and in which state they left the caller.  The count of
    invocations is instrumentation and is not compared: mapping twice makes
    two invocations, mapping the composite makes one. *)
Definition same_outcome {Heap X} (p q : Completion X * World Heap) : Prop :=
  fst p = fst q /\ heap (snd p) = heap (snd q).

(** [(a) => g(f(a))] *)
Definition compose {Heap A B C} (f : Func Heap A B) (g : Func Heap B C)
  : Func Heap A C :=
  fun a h =>
    match f a h with
    | (Normal b, h') => g b h'
    | (Throw x, h') => (Throw x, h')
    end.

(** [(a) => a] *)
Definition identity {Heap A} : Func Heap A A := fun a h => (Normal a, h).

(** Functions of the test suite and of the examples below.  The caller's
    state is a counter. *)

(** [(data) => data + 1] *)
Definition plus_one : Func nat nat nat := fun data h => (Normal (data + 1), h).

(** [(error) => error + 'error'] *)
Definition append_error : Func nat string string :=
  fun error h => (Normal (error ++ "error"), h).

(** [() => 2] *)
Definition const_two : Func nat string nat := fun _ h => (Normal 2, h).

(** [(x) => { hits++; return x * 2; }] *)
Definition tick_double : Func nat nat nat :=
  fun x h => (Normal (x * 2), S h).

(** [(x) => { hits++; throw new RangeError(x); }] *)
Definition tick_fail : Func nat string nat :=
  fun x h => (Throw {| name := "RangeError"; message := x |}, S h).

(** [() => value]: a fallback that ignores its argument and touches
    nothing. *)
Definition constant {Heap A B} (value : B) : Func Heap A B :=
  fun _ h => (Normal value, h).

(** [() => { throw new Error(message); }] *)
Definition fail_with {Heap A B} (msg : string) : Func Heap A B :=
  fun _ h => (Throw (new_Error msg), h).

(** How many invocations a run added. *)
Definition invocations {Heap X} (c : JS Heap X) (w : World Heap)
    (n : nat) : Prop :=
  calls (snd (c w)) = n + calls w.

(** The world the examples start from. *)
Definition w0 : World nat := {| calls := 0; heap := 0 |}.

(* ===================================================================== *)
(** ** The scenarios of test/result.spec.ts *)
(* ===================================================================== *)

Example test_expect_ok :
  (r <- ok (E:=string) 1 ;; expect r "error") w0 = (Normal 1, w0).
Proof. reflexivity. Qed.

Example test_expect_err :
  thrown (r <- err (T:=nat) "error" ;; expect r "error") w0
  = Some (new_Error "error").
Proof. reflexivity. Qed.

Example test_unwrap_err :
  thrown (r <- err (T:=nat) "error" ;; unwrap r) w0
  = Some (new_Error "unsuccessful result").
Proof. reflexivity. Qed.

Example test_unwrapOrElse_err :
  (r <- err "error" ;; unwrapOrElse r const_two) w0
  = (Normal 2, {| calls := 1; heap := 0 |}).
Proof. reflexivity. Qed.

Example test_map_data_ok :
  (r <- ok (E:=string) 1 ;; r' <- mapResultData r plus_one ;; unwrap r') w0
  = (Normal 2, {| calls := 1; heap := 0 |}).
Proof. reflexivity. Qed.

Example test_map_data_err :
  (r <- err "error" ;; mapResultData r plus_one) w0
  = (Normal (Err "error"), w0).
Proof. reflexivity. Qed.

Example test_map_or_default_err :
  (r <- err "error" ;;
   r' <- mapResultDataOrDefault (E2:=string) r plus_one 2 ;; unwrap r') w0
  = (Normal 2, w0).
Proof. reflexivity. Qed.

Example test_map_error_err :
  (r <- err (T:=nat) "error" ;; mapResultError r append_error) w0
  = (Normal (Err "errorerror"), {| calls := 1; heap := 0 |}).
Proof. reflexivity. Qed.

Example test_map_error_ok :
  (r <- ok 1 ;; mapResultError r append_error) w0 = (Normal (Ok 1), w0).
Proof. reflexivity. Qed.

(* ===================================================================== *)
(** ** Extraction that fails loudly: [unwrap] and [expect] *)
(* ===================================================================== *)

Section Loud.
Context {Heap : Type}.

Lemma raises_new_Error {X} (c : JS Heap X) (w : World Heap) (m : string) :
  c w = (Throw (new_Error m), w) -> raises c w "Error" m.
Proof. intros H. exists (new_Error m). repeat split. exact H. Qed.

Lemma raises_kind_unique {X} (c : JS Heap X) (w : World Heap)
    (k k' m m' : string) :
  raises c w k m -> raises c w k' m' -> k = k' /\ m = m'.
Proof.
  intros [x [Hx [Hk Hm]]] [y [Hy [Hk' Hm']]].
  rewrite Hx in Hy. injection Hy as ->. subst. split; reflexivity.
Qed.
End Loud.

(** C1, as the specification states it, at the input of the test suite:
    [unwrap(err("error"))] would raise an error of kind
    [UnsuccessfulResult].  It raises a plain [Error]. *)
Lemma unwrap_err_is_not_UnsuccessfulResult :
  ~ raises (r <- err (T:=nat) "error" ;; unwrap r) w0
      "UnsuccessfulResult" "unsuccessful result".
Proof.
  intros H.
  assert (H' : raises (r <- err (T:=nat) "error" ;; unwrap r) w0
                 "Error" "unsuccessful result")
    by (apply raises_new_Error; reflexivity).
  destruct (raises_kind_unique _ _ _ _ _ _ H H') as [Hk _].
  discriminate Hk.
Qed.

(** C1, amended: [unwrap(ok(d))] returns [d]; [unwrap(err(e))] is aborted
    by a built-in [Error] (the library defines no error kind of its own)
    whose message is ["unsuccessful result"], whatever [e] is. *)
Theorem unwrap_spec :
  forall (Heap T E : Type) (w : World Heap),
    (forall d : T, (r <- ok (E:=E) d ;; unwrap r) w = (Normal d, w)) /\
    (forall e : E,
        raises (r <- err (T:=T) e ;; unwrap r) w
          "Error" "unsuccessful result") /\
    (forall e e' : E,
        thrown (r <- err (T:=T) e ;; unwrap r) w
        = thrown (r <- err (T:=T) e' ;; unwrap r) w).
Proof.
  intros Heap T E w. split; [| split].
  - intros d. reflexivity.
  - intros e. apply raises_new_Error. reflexivity.
  - intros e e'. reflexivity.
Qed.

(** C2, as the specification states it, at the input of the test suite:
    [expect(err("error"), "error")] would raise an error of kind
    [UnmetExpectation].  It raises a plain [Error]. *)
Lemma expect_err_is_not_UnmetExpectation :
  ~ raises (r <- err (T:=nat) "error" ;; expect r "error") w0
      "UnmetExpectation" "error".
Proof.
  intros H.
  assert (H' : raises (r <- err (T:=nat) "error" ;; expect r "error") w0
                 "Error" "error")
    by (apply raises_new_Error; reflexivity).
  destruct (raises_kind_unique _ _ _ _ _ _ H H') as [Hk _].
  discriminate Hk.
Qed.

(** C2, amended: [expect(ok(d), m)] returns [d] for every message [m];
    [expect(err(e), m)] is aborted by a built-in [Error] whose message is
    [m], character for character. *)
Theorem expect_spec :
  forall (Heap T E : Type) (m : string) (w : World Heap),
    (forall d : T, (r <- ok (E:=E) d ;; expect r m) w = (Normal d, w)) /\
    (forall e : E, raises (r <- err (T:=T) e ;; expect r m) w "Error" m).
Proof.
  intros Heap T E m w. split.
  - intros d. reflexivity.
  - intros e. apply raises_new_Error. reflexivity.
Qed.

(** C9: [unwrap(r)] is [expect(r, "unsuccessful result")], as computations;
    an error raised by [unwrap] and one raised by [expect] have the same
    kind, and are the same error exactly when [expect] was given
    [unwrap]'s message. *)
Theorem unwrap_is_expect_with_fixed_message :
  forall (Heap T E : Type),
    (forall r : Result T E,
        unwrap (Heap:=Heap) r = expect r "unsuccessful result") /\
    (forall (e e' : E) (m : string) (w : World Heap),
        option_map name (thrown (unwrap (T:=T) (Err e)) w)
        = option_map name (thrown (expect (T:=T) (Err e') m) w)) /\
    (forall (e e' : E) (m : string) (w : World Heap),
        thrown (unwrap (T:=T) (Err e)) w
        = thrown (expect (T:=T) (Err e') m) w
        <-> m = "unsuccessful result").
Proof.
  intros Heap T E. split; [| split].
  - intros [d | e]; reflexivity.
  - intros e e' m w. reflexivity.
  - intros e e' m w. cbn. split.
    + intros H. injection H as H. symmetry. exact H.
    + intros ->. reflexivity.
Qed.

(* ===================================================================== *)
(** ** Predicates *)
(* ===================================================================== *)

(** C8: [isOk(ok(d))] and [isErr(err(e))] are true, [isErr(ok(d))] and
    [isOk(err(e))] are false; on every result the two predicates return,
    [isErr] returns the negation of what [isOk] returns, and so exactly one
    of them answers true. *)
Theorem isOk_isErr_spec :
  forall (Heap T E : Type) (w : World Heap),
    (forall d : T,
        (r <- ok (E:=E) d ;; isOk r) w = (Normal true, w) /\
        (r <- ok (E:=E) d ;; isErr r) w = (Normal false, w)) /\
    (forall e : E,
        (r <- err (T:=T) e ;; isOk r) w = (Normal false, w) /\
        (r <- err (T:=T) e ;; isErr r) w = (Normal true, w)) /\
    (forall r : Result T E,
        exists b : bool,
          isOk r w = (Normal b, w) /\
          isErr r w = (Normal (negb b), w) /\
          xorb b (negb b) = true).
Proof.
  intros Heap T E w. split; [| split].
  - intros d. split; reflexivity.
  - intros e. split; reflexivity.
  - intros r. exists (success r). repeat split.
    destruct (success r); reflexivity.
Qed.

(* ===================================================================== *)
(** ** Transformations *)
(* ===================================================================== *)

Section Calls.
Context {Heap A B : Type}.

(** What one invocation does to the world. *)
Lemma call_run (func : Func Heap A B) (a : A) (w : World Heap)
    (c : Completion B) (h' : Heap) :
  func a (heap w) = (c, h') ->
  call func a w = (c, {| calls := S (calls w); heap := h' |}).
Proof. intros H. unfold call. rewrite H. reflexivity. Qed.

(** Every run of [call] is one invocation. *)
Lemma call_inv (func : Func Heap A B) (a : A) (w w' : World Heap)
    (c : Completion B) :
  call func a w = (c, w') ->
  func a (heap w) = (c, heap w') /\ calls w' = S (calls w).
Proof.
  unfold call. destruct (func a (heap w)) as [c0 h0].
  intros H. injection H as <- <-. split; reflexivity.
Qed.

Lemma bind_normal {X Y} (m : JS Heap X) (k : X -> JS Heap Y)
    (w w' : World Heap) (x : X) :
  m w = (Normal x, w') -> bind m k w = k x w'.
Proof. intros H. unfold bind. rewrite H. reflexivity. Qed.

Lemma bind_throw {X Y} (m : JS Heap X) (k : X -> JS Heap Y)
    (w w' : World Heap) (x : JsError) :
  m w = (Throw x, w') -> bind m k w = (Throw x, w').
Proof. intros H. unfold bind. rewrite H. reflexivity. Qed.
End Calls.

(** Run the invocation at the head of a mapping step, given what the
    caller's function does there. *)
Ltac step_call Hf :=
  rewrite (bind_normal _ _ _ _ _ (call_run _ _ _ _ _ Hf)).

(** C3: on [Ok] carrying [d], [mapResultData] invokes [func] once, on [d],
    and returns [Ok] carrying what [func] returned; on [Err] it returns the
    [Err] it was given, and neither the caller's state nor the count of
    invocations moves: [func] was not invoked. *)
Theorem mapResultData_spec :
  forall (Heap T T2 E : Type) (func : Func Heap T T2) (w : World Heap),
    (forall (d : T) (v : T2) (h' : Heap),
        func d (heap w) = (Normal v, h') ->
        mapResultData (E:=E) (Ok d) func w
        = (Normal (Ok v), {| calls := S (calls w); heap := h' |})) /\
    (forall e : E,
        mapResultData (Err e) func w = (Normal (Err e), w) /\
        calls (snd (mapResultData (Err e) func w)) = calls w).
Proof.
  intros Heap T T2 E func w. split.
  - intros d v h' Hf. unfold mapResultData.
    step_call Hf. reflexivity.
  - intros e. split; reflexivity.
Qed.

Lemma mapResultData_spec_witness :
  plus_one 1 (heap w0) = (Normal 2, 0) /\
  mapResultData (E:=string) (Ok 1) plus_one w0
  = (Normal (Ok 2), {| calls := S (calls w0); heap := 0 |}).
Proof.
  split.
  - reflexivity.
  - apply (proj1 (mapResultData_spec nat nat nat string plus_one w0) 1 2 0).
    reflexivity.
Defined.

(** C4: on [Ok] carrying [d], [mapResultDataOrDefault] invokes [func] once
    and returns [Ok] carrying what it returned; on [Err] it returns [Ok]
    carrying the default value, without invoking [func]; whatever it
    returns is [Ok]. *)
Theorem mapResultDataOrDefault_spec :
  forall (Heap T T2 E E2 : Type) (func : Func Heap T T2) (dv : T2)
         (w : World Heap),
    (forall (d : T) (v : T2) (h' : Heap),
        func d (heap w) = (Normal v, h') ->
        mapResultDataOrDefault (E:=E) (E2:=E2) (Ok d) func dv w
        = (Normal (Ok v), {| calls := S (calls w); heap := h' |})) /\
    (forall e : E,
        mapResultDataOrDefault (E2:=E2) (Err e) func dv w
        = (Normal (Ok dv), w)) /\
    (forall (r : Result T E) (r' : Result T2 E2) (w' : World Heap),
        mapResultDataOrDefault r func dv w = (Normal r', w') ->
        success r' = true).
Proof.
  intros Heap T T2 E E2 func dv w. split; [| split].
  - intros d v h' Hf. unfold mapResultDataOrDefault.
    step_call Hf. reflexivity.
  - intros e. reflexivity.
  - intros [d | e] r' w'; unfold mapResultDataOrDefault.
    + destruct (call func d w) as [[v | x] w1] eqn:Hc.
      * rewrite (bind_normal _ _ _ _ _ Hc). intros H.
        injection H as <- _. reflexivity.
      * rewrite (bind_throw _ _ _ _ _ Hc). discriminate.
    + intros H. injection H as <- _. reflexivity.
Qed.

Lemma mapResultDataOrDefault_spec_witness :
  (tick_double 3 (heap w0) = (Normal 6, 1) /\
   mapResultDataOrDefault (E:=string) (E2:=string) (Ok 3) tick_double 2 w0
   = (Normal (Ok 6), {| calls := S (calls w0); heap := 1 |})) /\
  (mapResultDataOrDefault (E2:=string) (Err "error") tick_double 2 w0
   = (Normal (Ok 2), w0) /\
   success (T:=nat) (E:=string) (Ok 2) = true).
Proof.
  pose proof (mapResultDataOrDefault_spec nat nat nat string string
                tick_double 2 w0) as [HOk [HErr Halways]].
  split; split.
  - reflexivity.
  - apply HOk. reflexivity.
  - apply HErr.
  - apply (Halways (Err "error") (Ok 2) w0). reflexivity.
Defined.

(** C5: on [Err] carrying [e], [mapResultError] invokes [func] once, on
    [e], and returns [Err] carrying what [func] returned; on [Ok] it
    returns the [Ok] it was given and [func] is not invoked. *)
Theorem mapResultError_spec :
  forall (Heap T E E2 : Type) (func : Func Heap E E2) (w : World Heap),
    (forall (e : E) (v : E2) (h' : Heap),
        func e (heap w) = (Normal v, h') ->
        mapResultError (T:=T) (Err e) func w
        = (Normal (Err v), {| calls := S (calls w); heap := h' |})) /\
    (forall d : T,
        mapResultError (Ok d) func w = (Normal (Ok d), w) /\
        calls (snd (mapResultError (Ok d) func w)) = calls w).
Proof.
  intros Heap T E E2 func w. split.
  - intros e v h' Hf. unfold mapResultError.
    step_call Hf. reflexivity.
  - intros d. split; reflexivity.
Qed.

Lemma mapResultError_spec_witness :
  append_error "error" (heap w0) = (Normal "errorerror", 0) /\
  mapResultError (T:=nat) (Err "error") append_error w0
  = (Normal (Err "errorerror"), {| calls := S (calls w0); heap := 0 |}).
Proof.
  split.
  - reflexivity.
  - apply (proj1 (mapResultError_spec nat nat string string append_error w0)
             "error" "errorerror" 0).
    reflexivity.
Defined.

(* ===================================================================== *)
(** ** Extraction that does not fail *)
(* ===================================================================== *)

Section Quiet.
Context {Heap T E : Type}.

Lemma unwrapOrDefault_total (r : Result T E) (dv : T) :
  never_raises (Heap:=Heap) (unwrapOrDefault r dv).
Proof. intros w. destruct r as [d | e]; [exists d | exists dv]; reflexivity. Qed.

Lemma unwrapOrUndefined_total (r : Result T E) :
  never_raises (Heap:=Heap) (unwrapOrUndefined r).
Proof.
  intros w. destruct r as [d | e]; [exists (Value d) | exists undefined];
    reflexivity.
Qed.

Lemma unwrapOrNull_total (r : Result T E) :
  never_raises (Heap:=Heap) (unwrapOrNull r).
Proof.
  intros w. destruct r as [d | e]; [exists (Value d) | exists null];
    reflexivity.
Qed.

Lemma unwrapOrElse_raises_only_through (r : Result T E) :
  raises_only_through (Heap:=Heap) (unwrapOrElse r).
Proof.
  intros func w x w' H. destruct r as [d | e]; cbn in H.
  - discriminate H.
  - exists e. apply call_inv. exact H.
Qed.
End Quiet.

(** C6: on [Ok] carrying [d] the four quiet extractors return [d] and the
    world is untouched; on [Err] carrying [e] they return the default, what
    [func] made of [e] (invoked once), [undefined], and [null]; the two
    sentinels differ.  Three of them return from every world; the fourth
    fails only if [func] did. *)
Theorem unwrapOr_spec :
  forall (Heap T E : Type) (dv : T) (func : Func Heap E T) (w : World Heap),
    (forall d : T,
        unwrapOrDefault (E:=E) (Ok d) dv w = (Normal d, w) /\
        unwrapOrElse (Ok d) func w = (Normal d, w) /\
        unwrapOrUndefined (E:=E) (Ok d) w = (Normal (Value d), w) /\
        unwrapOrNull (E:=E) (Ok d) w = (Normal (Value d), w)) /\
    (forall e : E,
        unwrapOrDefault (Err e) dv w = (Normal dv, w) /\
        (forall (c : Completion T) (h' : Heap),
            func e (heap w) = (c, h') ->
            unwrapOrElse (Err e) func w
            = (c, {| calls := S (calls w); heap := h' |})) /\
        unwrapOrUndefined (T:=T) (Err e) w = (Normal undefined, w) /\
        unwrapOrNull (T:=T) (Err e) w = (Normal null, w)) /\
    @undefined T <> @null T /\
    (forall r : Result T E,
        never_raises (Heap:=Heap) (unwrapOrDefault r dv) /\
        never_raises (Heap:=Heap) (unwrapOrUndefined r) /\
        never_raises (Heap:=Heap) (unwrapOrNull r) /\
        raises_only_through (Heap:=Heap) (unwrapOrElse r)).
Proof.
  intros Heap T E dv func w. split; [| split; [| split]].
  - intros d. repeat split.
  - intros e. split; [reflexivity |]. split; [| split; reflexivity].
    intros c h' Hf. apply call_run. exact Hf.
  - discriminate.
  - intros r. split; [| split; [| split]].
    + apply unwrapOrDefault_total.
    + apply unwrapOrUndefined_total.
    + apply unwrapOrNull_total.
    + apply unwrapOrElse_raises_only_through.
Qed.

Lemma unwrapOr_spec_witness :
  const_two "error" (heap w0) = (Normal 2, 0) /\
  unwrapOrElse (Err "error") const_two w0
  = (Normal 2, {| calls := S (calls w0); heap := 0 |}).
Proof.
  split.
  - reflexivity.
  - apply (proj1 (proj2 (proj1 (proj2
             (unwrapOr_spec nat nat string 7 const_two w0)) "error"))
             (Normal 2) 0).
    reflexivity.
Defined.

(* ===================================================================== *)
(** ** Where failures come from *)
(* ===================================================================== *)

Section Origins.
Context {Heap T E : Type}.

Lemma ok_total (d : T) : never_raises (Heap:=Heap) (ok (E:=E) d).
Proof. intros w. exists (Ok d). reflexivity. Qed.

Lemma err_total (e : E) : never_raises (Heap:=Heap) (err (T:=T) e).
Proof. intros w. exists (Err e). reflexivity. Qed.

Lemma isOk_total (r : Result T E) : never_raises (Heap:=Heap) (isOk r).
Proof. intros w. exists (success r). reflexivity. Qed.

Lemma isErr_total (r : Result T E) : never_raises (Heap:=Heap) (isErr r).
Proof. intros w. exists (negb (success r)). reflexivity. Qed.

(** A mapping step, [v <- func(a); wrap(v)], fails only through [func]. *)
Lemma map_step_raises_only_through {A B X} (a : A) (wrap : B -> X)
    (func : Func Heap A B) (w w' : World Heap) (x : JsError) :
  (v <- call func a ;; ret (wrap v)) w = (Throw x, w') ->
  func a (heap w) = (Throw x, heap w') /\ calls w' = S (calls w).
Proof.
  intros H. destruct (call func a w) as [[v | y] w1] eqn:Hc.
  - rewrite (bind_normal _ _ _ _ _ Hc) in H. discriminate H.
  - rewrite (bind_throw _ _ _ _ _ Hc) in H. injection H as -> ->.
    apply call_inv. exact Hc.
Qed.

Lemma mapResultData_raises_only_through {T2} (r : Result T E) :
  raises_only_through (Heap:=Heap) (mapResultData (T2:=T2) r).
Proof.
  intros func w x w' H. destruct r as [d | e].
  - exists d. apply (map_step_raises_only_through d (@Ok T2 E)). exact H.
  - discriminate H.
Qed.

Lemma mapResultDataOrDefault_raises_only_through {T2 E2}
    (r : Result T E) (dv : T2) :
  raises_only_through (Heap:=Heap)
    (fun func => mapResultDataOrDefault (E2:=E2) r func dv).
Proof.
  intros func w x w' H. destruct r as [d | e].
  - exists d. apply (map_step_raises_only_through d (@Ok T2 E2)). exact H.
  - discriminate H.
Qed.

Lemma mapResultError_raises_only_through {E2} (r : Result T E) :
  raises_only_through (Heap:=Heap) (mapResultError (E2:=E2) r).
Proof.
  intros func w x w' H. destruct r as [d | e].
  - discriminate H.
  - exists e. apply (map_step_raises_only_through e (@Err T E2)). exact H.
Qed.
(** A mapping step ends as the invocation at its head does. *)
Lemma map_step_propagates {A B X} (a : A) (wrap : B -> X) :
  propagates_unmodified (Heap:=Heap)
    (fun func => v <- call func a ;; ret (wrap v)) a.
Proof.
  intros func w c h' Hf. destruct c as [v | x].
  - exists (wrap v). rewrite (bind_normal _ _ _ _ _ (call_run _ _ _ _ _ Hf)).
    reflexivity.
  - rewrite (bind_throw _ _ _ _ _ (call_run _ _ _ _ _ Hf)). reflexivity.
Qed.

Lemma unwrapOrElse_propagates (e : E) :
  propagates_unmodified (Heap:=Heap) (unwrapOrElse (T:=T) (Err e)) e.
Proof.
  intros func w c h' Hf. cbn. rewrite (call_run _ _ _ _ _ Hf).
  destruct c as [v | x]; [exists v |]; reflexivity.
Qed.

Lemma mapResultData_propagates {T2} (d : T) :
  propagates_unmodified (Heap:=Heap) (mapResultData (T2:=T2) (E:=E) (Ok d)) d.
Proof. exact (map_step_propagates d (@Ok T2 E)). Qed.

Lemma mapResultDataOrDefault_propagates {T2 E2} (d : T) (dv : T2) :
  propagates_unmodified (Heap:=Heap)
    (fun func => mapResultDataOrDefault (E:=E) (E2:=E2) (Ok d) func dv) d.
Proof. exact (map_step_propagates d (@Ok T2 E2)). Qed.

Lemma mapResultError_propagates {E2} (e : E) :
  propagates_unmodified (Heap:=Heap)
    (mapResultError (T:=T) (E2:=E2) (Err e)) e.
Proof. exact (map_step_propagates e (@Err T E2)). Qed.
End Origins.

(** C7: the constructors, the predicates and the three extractors without
    a function argument return from every world; the four operations that
    take a caller's function fail only when that function, invoked on the
    payload, failed, and then with the object it threw; on the variant that
    invokes it they end as the invocation ends, so that its failure is
    propagated unmodified, and on the other variant they return whatever
    the function would do; [expect] and [unwrap] return on [Ok] and throw
    on [Err]. *)
Theorem only_expect_and_unwrap_raise :
  forall (Heap T T2 E E2 : Type),
    (forall d : T, never_raises (Heap:=Heap) (ok (E:=E) d)) /\
    (forall e : E, never_raises (Heap:=Heap) (err (T:=T) e)) /\
    (forall r : Result T E,
        never_raises (Heap:=Heap) (isOk r) /\
        never_raises (Heap:=Heap) (isErr r) /\
        (forall dv : T, never_raises (Heap:=Heap) (unwrapOrDefault r dv)) /\
        never_raises (Heap:=Heap) (unwrapOrUndefined r) /\
        never_raises (Heap:=Heap) (unwrapOrNull r) /\
        raises_only_through (Heap:=Heap) (unwrapOrElse r) /\
        raises_only_through (Heap:=Heap) (mapResultData (T2:=T2) r) /\
        (forall dv : T2,
            raises_only_through (Heap:=Heap)
              (fun func => mapResultDataOrDefault (E2:=E2) r func dv)) /\
        raises_only_through (Heap:=Heap) (mapResultError (E2:=E2) r)) /\
    (forall (d : T) (m : string),
        never_raises (Heap:=Heap) (expect (E:=E) (Ok d) m) /\
        never_raises (Heap:=Heap) (unwrap (E:=E) (Ok d))) /\
    (forall (e : E) (m : string) (w : World Heap),
        thrown (expect (T:=T) (Err e) m) w = Some (new_Error m) /\
        thrown (unwrap (T:=T) (Err e)) w
        = Some (new_Error "unsuccessful result")) /\
    (forall (d : T) (e : E),
        propagates_unmodified (Heap:=Heap) (unwrapOrElse (T:=T) (Err e)) e /\
        propagates_unmodified (Heap:=Heap)
          (mapResultData (T2:=T2) (E:=E) (Ok d)) d /\
        (forall dv : T2,
            propagates_unmodified (Heap:=Heap)
              (fun func =>
                 mapResultDataOrDefault (E:=E) (E2:=E2) (Ok d) func dv) d) /\
        propagates_unmodified (Heap:=Heap)
          (mapResultError (T:=T) (E2:=E2) (Err e)) e) /\
    (forall (d : T) (e : E)
            (h : Func Heap E T) (f : Func Heap T T2) (g : Func Heap E E2),
        never_raises (unwrapOrElse (Ok d) h) /\
        never_raises (mapResultData (Err e) f) /\
        (forall dv : T2,
            never_raises (mapResultDataOrDefault (E2:=E2) (Err e) f dv)) /\
        never_raises (mapResultError (Ok d) g)).
Proof.
  intros Heap T T2 E E2.
  split; [exact ok_total |].
  split; [exact err_total |].
  split; [| split; [| split; [| split]]].
  - intros r.
    split; [apply isOk_total |].
    split; [apply isErr_total |].
    split; [intros dv; apply unwrapOrDefault_total |].
    split; [apply unwrapOrUndefined_total |].
    split; [apply unwrapOrNull_total |].
    split; [apply unwrapOrElse_raises_only_through |].
    split; [apply mapResultData_raises_only_through |].
    split; [intros dv; apply mapResultDataOrDefault_raises_only_through |].
    apply mapResultError_raises_only_through.
  - intros d m. split; intros w; exists d; reflexivity.
  - intros e m w. split; reflexivity.
  - intros d e.
    split; [apply unwrapOrElse_propagates |].
    split; [apply mapResultData_propagates |].
    split; [intros dv; apply mapResultDataOrDefault_propagates |].
    apply mapResultError_propagates.
  - intros d e h f g.
    split; [intros w; exists d; reflexivity |].
    split; [intros w; exists (Err e); reflexivity |].
    split; [intros dv w; exists (Ok dv); reflexivity |].
    intros w; exists (Ok d); reflexivity.
Qed.

Lemma only_expect_and_unwrap_raise_witness :
  (mapResultData (E:=nat) (Ok "boom") tick_fail w0
   = (Throw {| name := "RangeError"; message := "boom" |},
      {| calls := 1; heap := 1 |}) /\
   exists a : string,
     tick_fail a (heap w0)
     = (Throw {| name := "RangeError"; message := "boom" |}, 1) /\
     1 = S (calls w0)) /\
  (tick_fail "boom" (heap w0)
   = (Throw {| name := "RangeError"; message := "boom" |}, 1) /\
   mapResultDataOrDefault (E:=nat) (E2:=nat) (Ok "boom") tick_fail 7 w0
   = (Throw {| name := "RangeError"; message := "boom" |},
      {| calls := S (calls w0); heap := 1 |})).
Proof.
  destruct (only_expect_and_unwrap_raise nat string nat nat nat)
    as (_ & _ & Hr & _ & _ & Hp & _).
  split; (split; [reflexivity |]).
  - destruct (Hr (Ok "boom")) as (_ & _ & _ & _ & _ & _ & Hmap & _).
    exact (Hmap tick_fail w0 _ _ eq_refl).
  - destruct (Hp "boom" 0) as (_ & _ & Hdefault & _).
    exact (Hdefault 7 tick_fail w0 _ _ eq_refl).
Defined.

(* ===================================================================== *)
(** ** [mapResultData] as a functor on the success channel *)
(* ===================================================================== *)

Example map_twice_counts_two :
  (r <- mapResultData (E:=string) (Ok 3) tick_double ;;
   mapResultData r tick_double) w0
  = (Normal (Ok 12), {| calls := 2; heap := 2 |}).
Proof. reflexivity. Qed.

Example map_composite_counts_one :
  mapResultData (E:=string) (Ok 3) (compose tick_double tick_double) w0
  = (Normal (Ok 12), {| calls := 1; heap := 2 |}).
Proof. reflexivity. Qed.

(** C10: mapping [f] and then [g] over a result ends as mapping the
    composite [g] after [f] does, with the same result or the same error
    and the same effects on the caller's state; mapping the identity
    returns a result of the same variant with the same payload. *)
Theorem mapResultData_functor_laws :
  forall (Heap T T2 T3 E : Type) (r : Result T E)
         (f : Func Heap T T2) (g : Func Heap T2 T3) (w : World Heap),
    same_outcome
      ((r' <- mapResultData r f ;; mapResultData r' g) w)
      (mapResultData r (compose f g) w) /\
    same_outcome (mapResultData r identity w) (Normal r, w).
Proof.
  intros Heap T T2 T3 E r f g w. destruct r as [d | e].
  - split.
    + unfold same_outcome, mapResultData, compose, bind, call, ok, ret.
      destruct (f d (heap w)) as [[b | x] h1]; cbn.
      * destruct (g b h1) as [[c | y] h2]; cbn; split; reflexivity.
      * split; reflexivity.
    + split; reflexivity.
  - split; split; reflexivity.
Qed.

(* ===================================================================== *)
(** ** Further laws of the combinators *)
(* ===================================================================== *)

(** Split a run on the variant of the result and on how each invocation of
    a caller's function ends. *)
Ltac by_cases_on_run :=
  unfold same_outcome, invocations, mapResultData, mapResultDataOrDefault,
    mapResultError, unwrapOrElse, unwrapOrDefault, unwrap, expect,
    compose, identity, constant, fail_with, bind, call, ok, err, ret, throw;
  cbn;
  repeat match goal with
         | |- context [match ?f ?a (heap ?w) with _ => _ end] =>
             destruct (f a (heap w)) as [[? | ?] ?]; cbn
         | |- context [match ?f ?a ?h with _ => _ end] =>
             destruct (f a h) as [[? | ?] ?]; cbn
         end;
  repeat split; try reflexivity.

(** X1: [mapResultError] is a functor on the error channel: mapping [f]
    and then [g] ends as mapping their composite does, and mapping the
    identity gives back the result. *)
Theorem mapResultError_functor_laws :
  forall (Heap T E E2 E3 : Type) (r : Result T E)
         (f : Func Heap E E2) (g : Func Heap E2 E3) (w : World Heap),
    same_outcome
      ((r' <- mapResultError r f ;; mapResultError r' g) w)
      (mapResultError r (compose f g) w) /\
    same_outcome (mapResultError r identity w) (Normal r, w).
Proof.
  intros Heap T E E2 E3 r f g w. destruct r as [d | e]; by_cases_on_run.
Qed.

(** X2: the two channels are mapped independently: mapping the error and
    then the data is the same run as mapping the data and then the error,
    down to the number of invocations (one of the two functions is invoked,
    the other never). *)
Theorem mapResultData_mapResultError_commute :
  forall (Heap T T2 E E2 : Type) (r : Result T E)
         (f : Func Heap T T2) (g : Func Heap E E2) (w : World Heap),
    (r' <- mapResultError r g ;; mapResultData r' f) w
    = (r' <- mapResultData r f ;; mapResultError r' g) w /\
    invocations (r' <- mapResultError r g ;; mapResultData r' f) w 1.
Proof.
  intros Heap T T2 E E2 r f g w. destruct r as [d | e]; by_cases_on_run.
Qed.

(** X3: how often the caller's function is invoked depends on the variant
    alone, not on what the function does: once on the matching variant,
    also when it throws, and never on the other. *)
Theorem invocations_by_variant :
  forall (Heap T T2 E E2 E3 : Type) (r : Result T E)
         (f : Func Heap T T2) (g : Func Heap E E2) (h : Func Heap E T)
         (dv : T2) (w : World Heap),
    invocations (mapResultData r f) w (if success r then 1 else 0) /\
    invocations (mapResultDataOrDefault (E2:=E3) r f dv) w
      (if success r then 1 else 0) /\
    invocations (mapResultError r g) w (if success r then 0 else 1) /\
    invocations (unwrapOrElse r h) w (if success r then 0 else 1).
Proof.
  intros Heap T T2 E E2 E3 r f g h dv w.
  destruct r as [d | e]; by_cases_on_run.
Qed.

(** X4: when the caller's function throws on the payload, each of the
    three mapping operations is aborted by the object it threw, builds no
    result, and keeps what the function did to the caller's state. *)
Theorem mapping_propagates_failure :
  forall (Heap T T2 E E2 E3 : Type) (f : Func Heap T T2)
         (g : Func Heap E E2) (dv : T2) (x : JsError) (h' : Heap)
         (w : World Heap),
    (forall d : T,
        f d (heap w) = (Throw x, h') ->
        mapResultData (E:=E) (Ok d) f w
        = (Throw x, {| calls := S (calls w); heap := h' |}) /\
        mapResultDataOrDefault (E:=E) (E2:=E3) (Ok d) f dv w
        = (Throw x, {| calls := S (calls w); heap := h' |})) /\
    (forall e : E,
        g e (heap w) = (Throw x, h') ->
        mapResultError (T:=T) (Err e) g w
        = (Throw x, {| calls := S (calls w); heap := h' |})).
Proof.
  intros Heap T T2 E E2 E3 f g dv x h' w. split.
  - intros d Hf. unfold mapResultData, mapResultDataOrDefault.
    rewrite !(bind_throw _ _ _ _ _ (call_run _ _ _ _ _ Hf)).
    split; reflexivity.
  - intros e Hg. unfold mapResultError.
    rewrite (bind_throw _ _ _ _ _ (call_run _ _ _ _ _ Hg)). reflexivity.
Qed.

Lemma mapping_propagates_failure_witness :
  tick_fail "boom" (heap w0)
  = (Throw {| name := "RangeError"; message := "boom" |}, 1) /\
  mapResultData (E:=nat) (Ok "boom") tick_fail w0
  = (Throw {| name := "RangeError"; message := "boom" |},
     {| calls := S (calls w0); heap := 1 |}) /\
  mapResultError (T:=string) (Err "boom") tick_fail w0
  = (Throw {| name := "RangeError"; message := "boom" |},
     {| calls := S (calls w0); heap := 1 |}).
Proof.
  destruct (mapping_propagates_failure nat string nat string nat nat
              tick_fail tick_fail 0
              {| name := "RangeError"; message := "boom" |} 1 w0)
    as [Hdata Herror].
  split; [reflexivity |]. split.
  - apply (Hdata "boom"). reflexivity.
  - apply (Herror "boom"). reflexivity.
Defined.

(** X5: mapping never changes the variant: whatever [mapResultData] or
    [mapResultError] returns is [Ok] exactly when the argument was. *)
Theorem mapping_preserves_variant :
  forall (Heap T T2 E E2 : Type) (r : Result T E)
         (f : Func Heap T T2) (g : Func Heap E E2) (w w' : World Heap),
    (forall r' : Result T2 E,
        mapResultData r f w = (Normal r', w') -> success r' = success r) /\
    (forall r' : Result T E2,
        mapResultError r g w = (Normal r', w') -> success r' = success r).
Proof.
  intros Heap T T2 E E2 r f g w w'.
  destruct r as [d | e]; split; intros r';
    unfold mapResultData, mapResultError, bind, call, ok, err, ret; cbn.
  - destruct (f d (heap w)) as [[v | x] h1]; cbn; intros H;
      [injection H as <- _; reflexivity | discriminate H].
  - intros H; injection H as <- _; reflexivity.
  - intros H; injection H as <- _; reflexivity.
  - destruct (g e (heap w)) as [[v | x] h1]; cbn; intros H;
      [injection H as <- _; reflexivity | discriminate H].
Qed.

Lemma mapping_preserves_variant_witness :
  (mapResultData (E:=string) (Ok 3) tick_double w0
   = (Normal (Ok 6), {| calls := 1; heap := 1 |}) /\
   success (T:=nat) (E:=string) (Ok 6) = success (T:=nat) (E:=string) (Ok 3))
  /\
  (mapResultError (T:=nat) (Err "error") append_error w0
   = (Normal (Err "errorerror"), {| calls := 1; heap := 0 |}) /\
   success (T:=nat) (E:=string) (Err "errorerror")
   = success (T:=nat) (E:=string) (Err "error")).
Proof.
  split; (split; [reflexivity |]).
  - apply (proj1 (mapping_preserves_variant nat nat nat string string
                    (Ok 3) tick_double append_error w0
                    {| calls := 1; heap := 1 |})).
    reflexivity.
  - apply (proj2 (mapping_preserves_variant nat nat nat string string
                    (Err "error") tick_double append_error w0
                    {| calls := 1; heap := 0 |})).
    reflexivity.
Defined.

(** X6: the predicates are sound guards: when [isOk(r)] answers true,
    [unwrap(r)] and [expect(r, m)] return the payload; when [isErr(r)]
    answers true, both throw, each with its own message. *)
Theorem predicates_guard_extraction :
  forall (Heap T E : Type) (r : Result T E) (m : string) (w : World Heap),
    (isOk r w = (Normal true, w) ->
     exists d : T,
       r = Ok d /\
       unwrap r w = (Normal d, w) /\ expect r m w = (Normal d, w)) /\
    (isErr r w = (Normal true, w) ->
     thrown (unwrap r) w = Some (new_Error "unsuccessful result") /\
     thrown (expect r m) w = Some (new_Error m)).
Proof.
  intros Heap T E r m w. destruct r as [d | e]; split; cbn; intros H.
  - exists d. repeat split.
  - discriminate H.
  - discriminate H.
  - split; reflexivity.
Qed.

Lemma predicates_guard_extraction_witness :
  (isOk (E:=string) (Ok 1) w0 = (Normal true, w0) /\
   exists d : nat,
     Ok (E:=string) 1 = Ok d /\
     unwrap (E:=string) (Ok 1) w0 = (Normal d, w0) /\
     expect (E:=string) (Ok 1) "error" w0 = (Normal d, w0)) /\
  (isErr (T:=nat) (Err "error") w0 = (Normal true, w0) /\
   thrown (unwrap (T:=nat) (Err "error")) w0
   = Some (new_Error "unsuccessful result") /\
   thrown (expect (T:=nat) (Err "error") "error") w0
   = Some (new_Error "error")).
Proof.
  split; (split; [reflexivity |]).
  - apply (proj1 (predicates_guard_extraction nat nat string
                    (Ok 1) "error" w0)).
    reflexivity.
  - apply (proj2 (predicates_guard_extraction nat nat string
                    (Err "error") "error" w0)).
    reflexivity.
Defined.

(** X7: [mapResultDataOrDefault] is [mapResultData] followed by
    [unwrapOrDefault] and [ok]: the same run, with the same single
    invocation. *)
Theorem mapResultDataOrDefault_decomposes :
  forall (Heap T T2 E E2 : Type) (r : Result T E) (f : Func Heap T T2)
         (dv : T2) (w : World Heap),
    mapResultDataOrDefault (E2:=E2) r f dv w
    = (r' <- mapResultData r f ;; v <- unwrapOrDefault r' dv ;; ok v) w.
Proof.
  intros Heap T T2 E E2 r f dv w. destruct r as [d | e]; by_cases_on_run.
Qed.

(** X8: [unwrap] applied to what [mapResultDataOrDefault] returns never
    throws its own error: the run is that of [unwrapOrDefault] after
    [mapResultData], and it fails only if the caller's function did. *)
Theorem unwrap_after_mapResultDataOrDefault :
  forall (Heap T T2 E E2 : Type) (r : Result T E) (dv : T2),
    (forall (f : Func Heap T T2) (w : World Heap),
        (r' <- mapResultDataOrDefault (E2:=E2) r f dv ;; unwrap r') w
        = (r' <- mapResultData r f ;; unwrapOrDefault r' dv) w) /\
    raises_only_through (Heap:=Heap)
      (fun func =>
         r' <- mapResultDataOrDefault (E2:=E2) r func dv ;; unwrap r').
Proof.
  intros Heap T T2 E E2 r dv. split.
  - intros f w. destruct r as [d | e]; by_cases_on_run.
  - intros func w x w'. destruct r as [d | e].
    + intros H. exists d. revert H.
      unfold mapResultDataOrDefault, unwrap, bind, call, ok, ret. cbn.
      destruct (func d (heap w)) as [[v | y] h1]; cbn; intros H.
      * discriminate H.
      * injection H as -> <-. split; reflexivity.
    + intros H. discriminate H.
Qed.

Lemma unwrap_after_mapResultDataOrDefault_witness :
  (r' <- mapResultDataOrDefault (E:=nat) (E2:=nat) (Ok "boom") tick_fail 7 ;;
   unwrap r') w0
  = (Throw {| name := "RangeError"; message := "boom" |},
     {| calls := 1; heap := 1 |}) /\
  exists a : string,
    tick_fail a (heap w0)
    = (Throw {| name := "RangeError"; message := "boom" |}, 1) /\
    1 = S (calls w0).
Proof.
  split.
  - reflexivity.
  - exact (proj2 (unwrap_after_mapResultDataOrDefault nat string nat nat nat
                    (Ok "boom") 7)
             tick_fail w0 _ _ eq_refl).
Defined.

(** X9: [unwrapOrElse] subsumes the other extractors: with a constant
    fallback it ends as [unwrapOrDefault] does, and with a fallback that
    throws [new Error(m)] it ends as [expect(r, m)] does, hence as
    [unwrap(r)] for [unwrap]'s message. *)
Theorem unwrapOrElse_subsumes :
  forall (Heap T E : Type) (r : Result T E) (dv : T) (m : string)
         (w : World Heap),
    same_outcome (unwrapOrElse r (constant dv) w) (unwrapOrDefault r dv w) /\
    same_outcome (unwrapOrElse r (fail_with m) w) (expect r m w) /\
    same_outcome (unwrapOrElse r (fail_with "unsuccessful result") w)
      (unwrap r w).
Proof.
  intros Heap T E r dv m w. destruct r as [d | e]; by_cases_on_run.
Qed.

(** X10: a mapping step fuses into the operation that follows it on the
    same channel: [unwrapOrElse] after [mapResultError] ends as
    [unwrapOrElse] with the composite fallback, and [mapResultDataOrDefault]
    after [mapResultData] ends as [mapResultDataOrDefault] with the
    composite function. *)
Theorem mapping_fuses :
  forall (Heap T T2 T3 E E2 E3 : Type) (r : Result T E)
         (g : Func Heap E E2) (h : Func Heap E2 T)
         (f : Func Heap T T2) (f2 : Func Heap T2 T3) (dv : T3)
         (w : World Heap),
    same_outcome
      ((r' <- mapResultError r g ;; unwrapOrElse r' h) w)
      (unwrapOrElse r (compose g h) w) /\
    same_outcome
      ((r' <- mapResultData r f ;;
        mapResultDataOrDefault (E2:=E3) r' f2 dv) w)
      (mapResultDataOrDefault r (compose f f2) dv w).
Proof.
  intros Heap T T2 T3 E E2 E3 r g h f f2 dv w.
  destruct r as [d | e]; by_cases_on_run.
Qed.

(** X11: [unwrapOrUndefined] and [unwrapOrNull] can be told apart on [Err]
    only: they return the same value exactly when the result is [Ok]. *)
Theorem sentinels_differ_only_on_Err :
  forall (Heap T E : Type) (r : Result T E) (w : World Heap),
    unwrapOrUndefined r w = unwrapOrNull r w <-> success r = true.
Proof.
  intros Heap T E r w. destruct r as [d | e]; cbn; split; intros H.
  - reflexivity.
  - reflexivity.
  - discriminate H.
  - discriminate H.
Qed.
